(** * Aggregation store of Source.cpp: [ConcurrentHashMap<std::string, int>]

    A shallow embedding of the store of Source.cpp and of its four
    operations ([insert], [remove], [display], [getPriceRange]), followed by
    the properties of the store that the specification states.

    The store is the instance [ConcurrentHashMap<std::string, int>] that
    [main] builds: symbols are strings, lot sizes and prices are [int]. *)

From stdpp Require Import gmap strings list fin_maps pretty.

Local Open Scope Z_scope.

(** * Part 1: the program *)

(** ** [int]: 32-bit two's complement integers

    A value of type [int] is a [Z] between [Int.min] and [Int.max].  The only
    arithmetic the store does is [std::atomic<int>::fetch_add], which is
    defined to wrap around in two's complement. *)

Module Int.

Definition min : Z := -2147483648.
Definition max : Z := 2147483647.
Definition modulus : Z := 4294967296.

Definition in_range (z : Z) : Prop := min ≤ z ≤ max.

Definition wrap (z : Z) : Z := (z - min) `mod` modulus + min.

End Int.

(** ** [struct Order]

    [lotSize] is the value held by the [std::atomic<int>] the order owns
    (an order is move-only, so the cell is never shared between two orders);
    [price] is the plain [int] field. *)

Record Order : Type := mkOrder { lotSize : Z; price : Z }.

Global Instance Order_eq_dec : EqDecision Order.
Proof. solve_decision. Defined.

(** [lotSize->fetch_add(v)]: the cell takes the wrapped sum. *)
Definition fetch_add (o : Order) (v : Z) : Order :=
  {| lotSize := Int.wrap (lotSize o + v); price := price o |}.

(** ** The store and the effects of its operations

    [map_] is a [std::unordered_map] from symbols to vectors of orders.  An
    operation takes the store, and gives back its return value, the store
    afterwards and what it wrote to [std::cout] and [std::cerr]. *)

Abbreviation Store := (gmap string (list Order)).

Inductive Event : Type :=
  | Cout (line : string)
  | Cerr (line : string).

Record Res (A : Type) : Type := mkRes {
  value : A;
  store : Store;
  output : list Event
}.
Arguments mkRes {A} _ _ _.
Arguments value {A} _.
Arguments store {A} _.
Arguments output {A} _.

Definition M (A : Type) : Type := Store → Res A.

Global Instance M_ret : MRet M := λ A a s, mkRes a s [].

Global Instance M_bind : MBind M := λ A B f m s,
  let r := m s in
  let r' := f (value r) (store r) in
  mkRes (value r') (store r') (output r ++ output r').

(** [std::cerr << ... << std::endl] and [std::cout << ... << std::endl]. *)
Definition cerr (line : string) : M () := λ s, mkRes () s [Cerr line].
Definition cout (line : string) : M () := λ s, mkRes () s [Cout line].

(** [map_.find(symbol)]: [None] stands for [map_.end()]. *)
Definition find (symbol : string) : M (option (list Order)) :=
  λ s, mkRes (s !! symbol) s [].

(** [map_[symbol]]: an absent symbol gets an empty vector first. *)
Definition index (symbol : string) : M (list Order) := λ s,
  match s !! symbol with
  | Some orders => mkRes orders s []
  | None => mkRes [] (<[symbol := []]> s) []
  end.

(** Writing through the reference [auto& orders = map_[symbol]]. *)
Definition assign (symbol : string) (orders : list Order) : M () :=
  λ s, mkRes () (<[symbol := orders]> s) [].

(** [map_.erase(it)]. *)
Definition erase (symbol : string) : M () :=
  λ s, mkRes () (delete symbol s) [].

(** A snapshot of the whole map, for the loop of [display]. *)
Definition entries : M (list (string * list Order)) :=
  λ s, mkRes (map_to_list s) s [].

(** ** [insert] *)

(** The [for] loop of [insert]: the first order of the vector at the price
    of [order] receives its lot size, and the loop stops there.  The result
    is the [found] flag and the vector afterwards. *)
Fixpoint scan (orders : list Order) (order : Order) : bool * list Order :=
  match orders with
  | [] => (false, [])
  | existingOrder :: rest =>
      if decide (price existingOrder = price order)
      then (true, fetch_add existingOrder (lotSize order) :: rest)
      else let '(found, rest') := scan rest order in
           (found, existingOrder :: rest')
  end.

Definition insert (symbol : string) (order : Order) : M () :=
  orders ← index symbol;
  let '(found, orders') := scan orders order in
  if found then assign symbol orders'
  else assign symbol (orders' ++ [order]).

(** ** [remove] *)

Definition remove (symbol : string) : M () :=
  it ← find symbol;
  match it with
  | None => cerr ("Error: Symbol " +:+ symbol +:+ " not found for removal.")
  | Some _ => erase symbol
  end.

(** ** [display] *)

Definition show_order (order : Order) : string :=
  "{lotSize: " +:+ pretty (lotSize order) +:+ ", price: "
    +:+ pretty (price order) +:+ "} ".

Definition show_entry (entry : string * list Order) : string :=
  entry.1 +:+ ": " +:+ foldr (λ order acc, show_order order +:+ acc) "" entry.2.

Fixpoint display_loop (pairs : list (string * list Order)) : M () :=
  match pairs with
  | [] => mret ()
  | entry :: rest => _ ← cout (show_entry entry); display_loop rest
  end.

Definition display : M () :=
  pairs ← entries; display_loop pairs.

(** ** [getPriceRange] *)

(** [std::minmax_element] over a non-empty range that starts with [first]:
    the result is the first smallest and the last largest element for the
    comparison [comp]. *)
Fixpoint minmax_from (comp : Order → Order → bool) (lo hi : Order)
    (l : list Order) : Order * Order :=
  match l with
  | [] => (lo, hi)
  | x :: l' =>
      minmax_from comp (if comp x lo then x else lo)
                       (if comp x hi then hi else x) l'
  end.

(** The lambda passed by [getPriceRange]: [a.price < b.price]. *)
Definition price_lt (a b : Order) : bool := bool_decide (price a < price b).

Definition getPriceRange (symbol : string) : M (Z * Z) :=
  it ← find symbol;
  match it with
  | None =>
      _ ← cerr ("Error: Symbol " +:+ symbol +:+ " not found for price range.");
      mret (0, 0)
  | Some [] => mret (0, 0)
  | Some (first :: rest) =>
      let minMax := minmax_from price_lt first first rest in
      mret (price minMax.1, price minMax.2)
  end.

(** ** Sequences of operations *)

Inductive Op : Type :=
  | Insert (symbol : string) (order : Order)
  | Remove (symbol : string)
  | Display
  | GetPriceRange (symbol : string).

Definition step (s : Store) (op : Op) : Store :=
  match op with
  | Insert symbol order => store (insert symbol order s)
  | Remove symbol => store (remove symbol s)
  | Display => store (display s)
  | GetPriceRange symbol => store (getPriceRange symbol s)
  end.

Definition exec (ops : list Op) (s : Store) : Store := foldl step s ops.

(** The stores that some sequence of operations builds from the empty one. *)
Definition reachable (s : Store) : Prop := ∃ ops, s = exec ops ∅.

(** * Part 2: notions used to state the properties *)

(** ** Books and price levels *)

(** The vector of a symbol, empty when the symbol has none. *)
Definition book (s : Store) (symbol : string) : list Order :=
  default [] (s !! symbol).

(** The price levels of a symbol at one price. *)
Definition levels (s : Store) (symbol : string) (p : Z) : list Order :=
  filter (λ o, price o = p) (book s symbol).

(** The vector that [insert] leaves behind: the loop, then the
    [push_back] when nothing was found. *)
Definition merged (orders : list Order) (order : Order) : list Order :=
  let '(found, orders') := scan orders order in
  if found then orders' else orders' ++ [order].

(** Invariant I1 of a store: no Book holds two levels at one price. *)
Definition unique_prices (s : Store) : Prop :=
  ∀ symbol orders, s !! symbol = Some orders → NoDup (price <$> orders).

(** ** The ledger of a price level

    [inserted symbol p ops] is the sum of the lot sizes that [ops] inserts
    for [symbol] at price [p] after the last [Remove symbol], as an exact
    integer; [None] when nothing was inserted there since. *)

Definition post (symbol : string) (p : Z) (acc : option Z) (op : Op) : option Z :=
  match op with
  | Insert k order =>
      if decide (k = symbol ∧ price order = p)
      then Some (default 0 acc + lotSize order) else acc
  | Remove k => if decide (k = symbol) then None else acc
  | Display | GetPriceRange _ => acc
  end.

Definition inserted (symbol : string) (p : Z) (ops : list Op) : option Z :=
  foldl (post symbol p) None ops.

(** The lot sizes that [ops] inserts for [symbol] at price [p], in order. *)
Definition lots (symbol : string) (p : Z) (ops : list Op) : list Z :=
  omap (λ op, match op with
              | Insert k order =>
                  if decide (k = symbol ∧ price order = p)
                  then Some (lotSize order) else None
              | _ => None
              end) ops.

Definition total (qs : list Z) : Z := foldr Z.add 0 qs.

(** The levels at price [p] that a ledger stands for. *)
Definition level_of (p : Z) (acc : option Z) : list Order :=
  match acc with
  | None => []
  | Some q => [mkOrder (Int.wrap q) p]
  end.

(** The lot size of an inserted order is an [int]. *)
Definition int_op (op : Op) : Prop :=
  match op with
  | Insert _ order => Int.in_range (lotSize order)
  | _ => True
  end.

(** The lot size of an inserted order is not negative. *)
Definition nonneg_op (op : Op) : Prop :=
  match op with
  | Insert _ order => 0 ≤ lotSize order
  | _ => True
  end.

(** Only the inserts at ([symbol], [p]) have to hold an [int]. *)
Definition fits (symbol : string) (p : Z) (op : Op) : Prop :=
  match op with
  | Insert k order => k = symbol → price order = p → Int.in_range (lotSize order)
  | _ => True
  end.

(** ** Sample sequences *)

(** The store after an insert and a removal of "TCS". *)
Definition removed_TCS : Store :=
  exec [Insert "TCS" (mkOrder 10 2); Remove "TCS"] ∅.

(** Two inserts at one price whose lot sizes add up to more than [Int.max]. *)
Definition overflow_ops : list Op :=
  [Insert "TCS" (mkOrder 2147483647 2); Insert "TCS" (mkOrder 1 2)].

(** The inserts of the end-to-end scenario of the specification. *)
Definition scenario_ops : list Op :=
  [Insert "A" (mkOrder 10 2); Insert "A" (mkOrder 20 2); Insert "A" (mkOrder 5 1)].

(** ** Operations and the symbols they write *)

(** The symbol whose Book an operation may change. *)
Definition target (op : Op) : option string :=
  match op with
  | Insert symbol _ | Remove symbol => Some symbol
  | Display | GetPriceRange _ => None
  end.

(** Whether [symbol] has a Book after [op], given whether it had one. *)
Definition alive (symbol : string) (acc : bool) (op : Op) : bool :=
  match op with
  | Insert k _ => if decide (k = symbol) then true else acc
  | Remove k => if decide (k = symbol) then false else acc
  | Display | GetPriceRange _ => acc
  end.

(** An operation that is not a removal. *)
Definition keeps (op : Op) : Prop :=
  match op with
  | Remove _ => False
  | _ => True
  end.

(** No Book of the store is an empty vector. *)
Definition nonempty_books (s : Store) : Prop :=
  ∀ symbol orders, s !! symbol = Some orders → orders ≠ [].

(** ** The self-test functions of [ConcurrentHashMap]

    A test either returns or stops the program: a failed [assert] aborts
    (the program is taken as built without [NDEBUG]), and [map_.at] throws
    [std::out_of_range], which nothing catches.  The text that a failed
    [assert] prints is left out.  [testDisplay] and [testPriceRange] are
    declared [const] in the source; their statements are run as written. *)

Inductive Fault : Type :=
  | AssertionFailed
  | OutOfRange.

Definition T (A : Type) : Type := Store → Res (Fault + A).

Definition retT {A} (a : A) : T A := λ s, mkRes (inr a) s [].

Definition bindT {A B} (m : T A) (k : A → T B) : T B := λ s,
  let r := m s in
  match value r with
  | inl fault => mkRes (inl fault) (store r) (output r)
  | inr a =>
      let r' := k a (store r) in
      mkRes (value r') (store r') (output r ++ output r')
  end.

(** A call of one of the four operations. *)
Definition call {A} (m : M A) : T A := λ s,
  let r := m s in mkRes (inr (value r)) (store r) (output r).

(** [assert(cond)]. *)
Definition assert (cond : bool) : T () := λ s,
  mkRes (if cond then inr () else inl AssertionFailed) s [].

(** [map_.at(symbol)]. *)
Definition at_ (symbol : string) : T (list Order) := λ s,
  mkRes (match s !! symbol with
         | Some orders => inr orders
         | None => inl OutOfRange
         end) s [].

Global Instance Order_inhabited : Inhabited Order := populate (mkOrder 0 0).

Module SelfTest.

Notation "x ←ₜ m ; k" := (bindT m (λ x, k))
  (at level 20, m at level 100, k at level 200, only parsing).

(** The three [assert]s on [map_.at("TEST")]: one order, with this lot size
    and this price.  [orders !!! 0] is [orders[0]], which is only read once
    the size is known to be 1. *)
Definition check_single (lot pr : Z) : T () :=
  orders ←ₜ at_ "TEST";
  _ ←ₜ assert (bool_decide (length orders = 1%nat));
  _ ←ₜ assert (bool_decide (lotSize (orders !!! 0%nat) = lot));
  assert (bool_decide (price (orders !!! 0%nat) = pr)).

Definition testInsert : T bool :=
  _ ←ₜ call (insert "TEST" (mkOrder 10 2));
  _ ←ₜ check_single 10 2;
  _ ←ₜ call (insert "TEST" (mkOrder 20 2));
  _ ←ₜ check_single 30 2;
  retT true.

Definition testRemove : T bool :=
  _ ←ₜ call (insert "TEST" (mkOrder 10 2));
  _ ←ₜ call (remove "TEST");
  it ←ₜ call (find "TEST");
  _ ←ₜ assert (bool_decide (it = None));
  retT true.

Definition testDisplay : T bool :=
  _ ←ₜ call (insert "TEST" (mkOrder 10 2));
  _ ←ₜ call display;
  retT true.

Definition testPriceRange : T bool :=
  _ ←ₜ call (insert "TEST" (mkOrder 10 2));
  _ ←ₜ call (insert "TEST" (mkOrder 20 5));
  _ ←ₜ call (insert "TEST" (mkOrder 30 1));
  range ←ₜ call (getPriceRange "TEST");
  _ ←ₜ assert (bool_decide (range.1 = 1));
  _ ←ₜ assert (bool_decide (range.2 = 5));
  retT true.


End SelfTest.

(** ** The operations of [main]

    [main] runs the ten initial inserts as asynchronous tasks and waits for
    all of them, then does the same with the two additional inserts; the
    order in which the tasks of one batch take the lock is not fixed. *)

Definition symbols : list string :=
  ["NESTLEIND"; "HDFCBANK"; "RELIANCE"; "TCS"; "INFY";
   "SBIN"; "ICICIBANK"; "LT"; "BAJFINANCE"; "HINDUNILVR"].

Definition initial_inserts : list Op :=
  (λ symbol, Insert symbol (mkOrder 10 2)) <$> symbols.




(** Runs an operation down to its primitives. *)
Ltac run :=
  unfold getPriceRange, remove, display, mbind, M_bind, find, entries; simpl.

(** * Part 3: lemmas on the program *)

(** ** Wrap-around *)

Module IntFacts.

Lemma wrap_in_range z : Int.in_range (Int.wrap z).
Proof.
  unfold Int.in_range, Int.wrap, Int.min, Int.max, Int.modulus.
  pose proof (Z.mod_pos_bound (z - -2147483648) 4294967296). lia.
Qed.

Lemma wrap_id z : Int.in_range z → Int.wrap z = z.
Proof.
  unfold Int.in_range, Int.wrap, Int.min, Int.max, Int.modulus. intros Hz.
  rewrite Z.mod_small; lia.
Qed.

Lemma wrap_add_l a b : Int.wrap (Int.wrap a + b) = Int.wrap (a + b).
Proof.
  unfold Int.wrap.
  replace ((a - Int.min) `mod` Int.modulus + Int.min + b - Int.min)
    with ((a - Int.min) `mod` Int.modulus + b) by lia.
  replace (a + b - Int.min) with ((a - Int.min) + b) by lia.
  by rewrite Zplus_mod_idemp_l.
Qed.

End IntFacts.

(** ** The self-tests of the source *)

Example testInsert :
  let s1 := store (insert "TEST" (mkOrder 10 2) ∅) in
  let s2 := store (insert "TEST" (mkOrder 20 2) s1) in
  s1 !! "TEST" = Some [mkOrder 10 2] ∧ s2 !! "TEST" = Some [mkOrder 30 2].
Proof. split; vm_compute; reflexivity. Qed.

Example testRemove :
  store (remove "TEST" (store (insert "TEST" (mkOrder 10 2) ∅))) !! "TEST" = None.
Proof. vm_compute. reflexivity. Qed.

Example testPriceRange :
  value (getPriceRange "TEST"
    (exec [Insert "TEST" (mkOrder 10 2); Insert "TEST" (mkOrder 20 5);
           Insert "TEST" (mkOrder 30 1)] ∅)) = (1, 5).
Proof. vm_compute. reflexivity. Qed.

Example testDisplay :
  output (display (store (insert "TEST" (mkOrder 10 2) ∅)))
  = [Cout "TEST: {lotSize: 10, price: 2} "].
Proof. vm_compute. reflexivity. Qed.

(** The end-to-end scenario of the specification, as the code runs it. *)
Example scenario :
  exec scenario_ops ∅ !! "A" = Some [mkOrder 30 2; mkOrder 5 1] ∧
  value (getPriceRange "A" (exec scenario_ops ∅)) = (1, 2) ∧
  getPriceRange "A" (exec (scenario_ops ++ [Remove "A"]) ∅)
  = mkRes (0, 0) ∅ [Cerr "Error: Symbol A not found for price range."].
Proof. split_and!; vm_compute; reflexivity. Qed.

(** ** What the operations do to the store *)

Lemma insert_eq symbol order s :
  insert symbol order s
  = mkRes () (<[symbol := merged (book s symbol) order]> s) [].
Proof.
  unfold insert, merged, book, mbind, M_bind, index.
  destruct (s !! symbol) as [orders|] eqn:Hs; simpl.
  - destruct (scan orders order) as [[] orders']; reflexivity.
  - unfold assign. by rewrite insert_insert_eq.
Qed.

Lemma remove_present symbol orders s :
  s !! symbol = Some orders → remove symbol s = mkRes () (delete symbol s) [].
Proof. intros Hs. run. by rewrite Hs. Qed.

Lemma remove_absent symbol s :
  s !! symbol = None →
  remove symbol s
  = mkRes () s [Cerr ("Error: Symbol " +:+ symbol +:+ " not found for removal.")].
Proof. intros Hs. run. by rewrite Hs. Qed.

Lemma remove_store symbol s : store (remove symbol s) = delete symbol s.
Proof.
  destruct (s !! symbol) as [orders|] eqn:Hs.
  - by rewrite (remove_present _ _ _ Hs).
  - rewrite (remove_absent _ _ Hs); simpl. by rewrite delete_id.
Qed.

Lemma display_loop_store pairs s : store (display_loop pairs s) = s.
Proof.
  revert s. induction pairs as [|entry rest IH]; intros s; [done|].
  simpl. unfold mbind, M_bind; simpl. apply IH.
Qed.

Lemma display_store s : store (display s) = s.
Proof. run. apply display_loop_store. Qed.

Lemma getPriceRange_store symbol s : store (getPriceRange symbol s) = s.
Proof.
  run.
  destruct (s !! symbol) as [[|first rest]|]; reflexivity.
Qed.

Lemma step_Insert s symbol order :
  step s (Insert symbol order) = <[symbol := merged (book s symbol) order]> s.
Proof. unfold step. by rewrite insert_eq. Qed.

Lemma step_Remove s symbol : step s (Remove symbol) = delete symbol s.
Proof. apply remove_store. Qed.

Lemma exec_cons op ops s : exec (op :: ops) s = exec ops (step s op).
Proof. reflexivity. Qed.

(** ** The loop of [insert] *)

Lemma scan_miss orders order :
  price order ∉ price <$> orders → scan orders order = (false, orders).
Proof.
  induction orders as [|e rest IH]; intros Hfresh; [done|].
  rewrite fmap_cons, not_elem_of_cons in Hfresh. destruct Hfresh as [Hne Hrest].
  simpl. rewrite decide_False by done. by rewrite IH.
Qed.

Lemma scan_hit orders order :
  price order ∈ price <$> orders →
  ∃ before e after,
    orders = before ++ (e :: after) ∧ price e = price order ∧
    (price order ∉ price <$> before) ∧
    scan orders order = (true, before ++ (fetch_add e (lotSize order) :: after)).
Proof.
  induction orders as [|e rest IH]; intros Hin; [by apply elem_of_nil in Hin|].
  simpl. destruct (decide (price e = price order)) as [Heq|Hne].
  - exists [], e, rest. repeat split; try done. simpl. apply not_elem_of_nil.
  - rewrite fmap_cons, elem_of_cons in Hin.
    destruct Hin as [Heq|Hin]; [congruence|].
    destruct (IH Hin) as (before & e' & after & -> & He' & Hfresh & ->).
    exists (e :: before), e', after. repeat split; try done.
    rewrite fmap_cons, not_elem_of_cons. split; [congruence|done].
Qed.

Lemma merged_miss orders order :
  price order ∉ price <$> orders → merged orders order = orders ++ [order].
Proof. intros Hfresh. unfold merged. by rewrite scan_miss. Qed.

Lemma merged_prices orders order :
  price <$> merged orders order
  = if decide (price order ∈ price <$> orders) then price <$> orders
    else (price <$> orders) ++ [price order].
Proof.
  destruct (decide (price order ∈ price <$> orders)) as [Hin|Hfresh].
  - destruct (scan_hit _ _ Hin) as (before & e & after & -> & He & _ & Hscan).
    unfold merged. rewrite Hscan. by rewrite !fmap_app, !fmap_cons.
  - rewrite merged_miss by done. by rewrite fmap_app.
Qed.

Lemma merged_NoDup orders order :
  NoDup (price <$> orders) → NoDup (price <$> merged orders order).
Proof.
  intros Hnd. rewrite merged_prices. case_decide as Hin; [done|].
  apply NoDup_app. split_and!; [done| |apply NoDup_singleton].
  intros p Hp Hp'. apply list_elem_of_singleton in Hp'. by subst.
Qed.

Lemma filter_price_none orders p :
  p ∉ price <$> orders → filter (λ o, price o = p) orders = [].
Proof.
  induction orders as [|e rest IH]; intros Hfresh; [done|].
  rewrite fmap_cons, not_elem_of_cons in Hfresh. destruct Hfresh as [Hne Hrest].
  rewrite filter_cons_False by congruence. by apply IH.
Qed.

(** The levels at price [p] after the loop and the [push_back]. *)
Lemma filter_merged orders order p :
  filter (λ o, price o = p) (merged orders order)
  = if decide (price order = p)
    then match filter (λ o, price o = p) orders with
         | [] => [order]
         | e :: rest => fetch_add e (lotSize order) :: rest
         end
    else filter (λ o, price o = p) orders.
Proof.
  destruct (decide (price order ∈ price <$> orders)) as [Hin|Hfresh].
  - destruct (scan_hit _ _ Hin) as (before & e & after & -> & He & Hb & Hscan).
    unfold merged. rewrite Hscan. rewrite !filter_app, !filter_cons. simpl.
    destruct (decide (price order = p)) as [<-|Hp].
    + rewrite (filter_price_none before) by done.
      by destruct (decide (price e = price order)).
    + assert (price e ≠ p) as He' by congruence.
      by destruct (decide (price e = p)).
  - rewrite merged_miss by done. rewrite filter_app, filter_cons, filter_nil.
    destruct (decide (price order = p)) as [<-|Hp].
    + rewrite (filter_price_none orders) by done.
      by destruct (decide (price order = price order)).
    + destruct (decide (price order = p)); [done|]. by rewrite app_nil_r.
Qed.

(** ** One step of a sequence, seen from one symbol *)

Lemma book_Insert_eq s symbol order :
  book (step s (Insert symbol order)) symbol = merged (book s symbol) order.
Proof. rewrite step_Insert. unfold book at 1. by rewrite lookup_insert_eq. Qed.

Lemma book_Insert_ne s k symbol order :
  k ≠ symbol → book (step s (Insert k order)) symbol = book s symbol.
Proof. intros Hk. rewrite step_Insert. unfold book. by rewrite lookup_insert_ne. Qed.

Lemma book_Remove_eq s symbol : book (step s (Remove symbol)) symbol = [].
Proof. rewrite step_Remove. unfold book. by rewrite lookup_delete_eq. Qed.

Lemma book_Remove_ne s k symbol :
  k ≠ symbol → book (step s (Remove k)) symbol = book s symbol.
Proof. intros Hk. rewrite step_Remove. unfold book. by rewrite lookup_delete_ne. Qed.

Lemma step_Display s : step s Display = s.
Proof. apply display_store. Qed.

Lemma step_GetPriceRange s symbol : step s (GetPriceRange symbol) = s.
Proof. apply getPriceRange_store. Qed.

(** ** Levels and ledgers along a sequence *)

Lemma int_op_fits symbol p op : int_op op → fits symbol p op.
Proof. destruct op; simpl; auto. Qed.

Lemma levels_step s symbol p acc op :
  fits symbol p op →
  levels s symbol p = level_of p acc →
  levels (step s op) symbol p = level_of p (post symbol p acc op).
Proof.
  intros Hfit Hlv. destruct op as [k order|k| |k]; simpl post.
  - destruct (decide (k = symbol ∧ price order = p)) as [[-> Hp]|Hne].
    + unfold levels. rewrite book_Insert_eq, filter_merged.
      rewrite decide_True by done. fold (levels s symbol p). rewrite Hlv.
      specialize (Hfit eq_refl Hp). destruct order as [lot pr]; simpl in *.
      subst pr. destruct acc as [q|]; simpl; unfold fetch_add; simpl.
      * by rewrite IntFacts.wrap_add_l.
      * by rewrite IntFacts.wrap_id.
    + unfold levels. destruct (decide (k = symbol)) as [->|Hk].
      * rewrite book_Insert_eq, filter_merged.
        rewrite decide_False by (intros ?; apply Hne; done). apply Hlv.
      * rewrite book_Insert_ne by done. apply Hlv.
  - unfold levels. destruct (decide (k = symbol)) as [->|Hk].
    + by rewrite book_Remove_eq.
    + rewrite book_Remove_ne by done. apply Hlv.
  - by rewrite step_Display.
  - by rewrite step_GetPriceRange.
Qed.

Lemma levels_exec ops s symbol p acc :
  Forall (fits symbol p) ops →
  levels s symbol p = level_of p acc →
  levels (exec ops s) symbol p = level_of p (foldl (post symbol p) acc ops).
Proof.
  revert s acc. induction ops as [|op ops IH]; intros s acc Hfit Hlv; [done|].
  apply Forall_cons in Hfit as [Hop Hfit].
  rewrite exec_cons. simpl foldl. apply IH; [done|]. by apply levels_step.
Qed.

Lemma levels_empty symbol p : levels ∅ symbol p = [].
Proof. unfold levels, book. by rewrite lookup_empty. Qed.

(** ** Ledgers without removal and without overflow *)

Lemma total_nonneg qs : Forall (λ q, 0 ≤ q) qs → 0 ≤ total qs.
Proof. induction 1; simpl; lia. Qed.

Lemma total_bounds qs q :
  Forall (λ q, 0 ≤ q) qs → q ∈ qs → 0 ≤ q ≤ total qs.
Proof.
  induction 1 as [|q' qs Hq' Hqs IH]; intros Hin; [by apply elem_of_nil in Hin|].
  pose proof (total_nonneg _ Hqs). simpl.
  apply elem_of_cons in Hin as [->|Hin]; [lia|]. specialize (IH Hin). lia.
Qed.

Section Ledger.

Context (symbol : string) (p : Z).

Lemma lots_cons op ops :
  lots symbol p (op :: ops)
  = match op with
    | Insert k order =>
        if decide (k = symbol ∧ price order = p)
        then lotSize order :: lots symbol p ops else lots symbol p ops
    | _ => lots symbol p ops
    end.
Proof.
  destruct op as [k order|k| |k]; try done.
  unfold lots; simpl. by case_decide.
Qed.

Lemma post_lots ops acc :
  Forall (λ op, op ≠ Remove symbol) ops →
  foldl (post symbol p) acc ops
  = match lots symbol p ops with
    | [] => acc
    | _ :: _ => Some (default 0 acc + total (lots symbol p ops))
    end.
Proof.
  revert acc. induction ops as [|op ops IH]; intros acc Hkeep; [done|].
  apply Forall_cons in Hkeep as [Hop Hkeep].
  simpl foldl. rewrite IH by done. rewrite lots_cons.
  destruct op as [k order|k| |k]; simpl.
  - destruct (decide (k = symbol ∧ price order = p)); simpl; [|done].
    destruct (lots symbol p ops) as [|q qs]; simpl; f_equal; lia.
  - rewrite decide_False by congruence. done.
  - done.
  - done.
Qed.

Lemma lots_fits ops :
  Forall (λ q, 0 ≤ q) (lots symbol p ops) →
  total (lots symbol p ops) ≤ Int.max →
  Forall (fits symbol p) ops.
Proof.
  intros Hpos Hmax. apply Forall_forall. intros op Hop.
  destruct op as [k order|k| |k]; simpl; try done. intros -> Hp.
  assert (lotSize order ∈ lots symbol p ops) as Hin.
  { unfold lots. apply list_elem_of_omap. exists (Insert symbol order).
    split; [done|]. by rewrite decide_True. }
  pose proof (total_bounds _ _ Hpos Hin).
  unfold Int.in_range, Int.min, Int.max in *. lia.
Qed.

Lemma post_nonneg ops acc :
  Forall nonneg_op ops → 0 ≤ default 0 acc →
  0 ≤ default 0 (foldl (post symbol p) acc ops).
Proof.
  revert acc. induction ops as [|op ops IH]; intros acc Hpos Hacc; [done|].
  apply Forall_cons in Hpos as [Hop Hpos]. simpl foldl. apply IH; [done|].
  destruct op as [k order|k| |k]; simpl in *; try done.
  - case_decide; simpl; [lia|done].
  - case_decide; simpl; [lia|done].
Qed.

(** Without a removal in between, and with lot sizes that are not negative,
    a ledger only grows. *)
Lemma post_grows ops q :
  Forall nonneg_op ops → Forall (λ op, op ≠ Remove symbol) ops →
  ∃ q', foldl (post symbol p) (Some q) ops = Some q' ∧ q ≤ q'.
Proof.
  revert q. induction ops as [|op ops IH]; intros q Hpos Hkeep.
  - exists q. split; [done|lia].
  - apply Forall_cons in Hpos as [Hop Hpos].
    apply Forall_cons in Hkeep as [Hk Hkeep]. simpl foldl.
    destruct op as [k order|k| |k]; simpl in *.
    + case_decide; [|by apply IH].
      destruct (IH (q + lotSize order) Hpos Hkeep) as (q' & -> & Hq').
      exists q'. split; [done|lia].
    + rewrite decide_False by congruence. by apply IH.
    + by apply IH.
    + by apply IH.
Qed.

End Ledger.

(** ** Invariant I1 along a sequence *)

Lemma unique_prices_step s op : unique_prices s → unique_prices (step s op).
Proof.
  intros Hs. destruct op as [k order|k| |k].
  - rewrite step_Insert. intros symbol orders.
    destruct (decide (k = symbol)) as [->|Hk].
    + rewrite lookup_insert_eq. intros [= <-]. apply merged_NoDup.
      unfold book. destruct (s !! symbol) as [orders|] eqn:Hl; simpl.
      * by apply (Hs symbol).
      * apply NoDup_nil_2.
    + rewrite lookup_insert_ne by done. apply Hs.
  - rewrite step_Remove. intros symbol orders Hl.
    apply lookup_delete_Some in Hl as [_ Hl]. by apply (Hs symbol).
  - by rewrite step_Display.
  - by rewrite step_GetPriceRange.
Qed.

Lemma unique_prices_exec ops s : unique_prices s → unique_prices (exec ops s).
Proof.
  revert s. induction ops as [|op ops IH]; intros s Hs; [done|].
  rewrite exec_cons. apply IH. by apply unique_prices_step.
Qed.

(** ** [std::minmax_element] with the comparison of [getPriceRange] *)

Lemma minmax_from_spec l lo hi :
  let r := minmax_from price_lt lo hi l in
  r.1 ∈ lo :: l ∧ r.2 ∈ hi :: l ∧
  price r.1 ≤ price lo ∧ price hi ≤ price r.2 ∧
  ∀ o, o ∈ l → price r.1 ≤ price o ≤ price r.2.
Proof.
  revert lo hi. induction l as [|x l IH]; intros lo hi; simpl.
  - split_and!; [apply list_elem_of_here|apply list_elem_of_here|lia|lia|].
    intros o Ho. by apply elem_of_nil in Ho.
  - destruct (IH (if price_lt x lo then x else lo)
                 (if price_lt x hi then hi else x))
      as (Hlo & Hhi & Hle & Hge & Hall).
    unfold price_lt in *.
    destruct (bool_decide_reflect (price x < price lo));
      destruct (bool_decide_reflect (price x < price hi));
      rewrite !elem_of_cons in *;
      (split_and!; [tauto|tauto|lia|lia|]);
      (intros o [->|Ho]%elem_of_cons; [lia|by apply Hall]).
Qed.

Lemma getPriceRange_present s symbol first rest :
  s !! symbol = Some (first :: rest) →
  ∃ lo hi,
    getPriceRange symbol s = mkRes (price lo, price hi) s [] ∧
    lo ∈ first :: rest ∧ hi ∈ first :: rest ∧
    ∀ o, o ∈ first :: rest → price lo ≤ price o ≤ price hi.
Proof.
  intros Hs.
  destruct (minmax_from_spec rest first first) as (Hlo & Hhi & Hle & Hge & Hall).
  exists (minmax_from price_lt first first rest).1,
         (minmax_from price_lt first first rest).2.
  split_and!; [|done|done|].
  - run. by rewrite Hs.
  - intros o [->|Ho]%elem_of_cons; [lia|by apply Hall].
Qed.

Lemma getPriceRange_absent s symbol :
  s !! symbol = None →
  getPriceRange symbol s
  = mkRes (0, 0) s
      [Cerr ("Error: Symbol " +:+ symbol +:+ " not found for price range.")].
Proof.
  intros Hs. run. by rewrite Hs.
Qed.

Lemma getPriceRange_empty s symbol :
  s !! symbol = Some [] → getPriceRange symbol s = mkRes (0, 0) s [].
Proof.
  intros Hs. run. by rewrite Hs.
Qed.

Lemma levels_nil s symbol p :
  levels s symbol p = [] ↔ p ∉ price <$> book s symbol.
Proof.
  split.
  - intros Hnil Hin. apply list_elem_of_fmap in Hin as (o & -> & Ho).
    by apply (filter_nil_not_elem_of _ _ o Hnil).
  - apply filter_price_none.
Qed.

(** * The properties of the store *)

(** ** Symbols without a Book *)

(** C1, as stated, fails: for a symbol that was never inserted, and for a
    symbol whose Book is empty, [getPriceRange] returns the pair (0, 0). *)
Lemma getPriceRange_returns_sentinel :
  value (getPriceRange "TCS" ∅) = (0, 0) ∧
  value (getPriceRange "TCS" {["TCS" := []]}) = (0, 0).
Proof. split; vm_compute; reflexivity. Qed.

(** C1, as the code has it: for a symbol with no Book or with an empty Book,
    [getPriceRange] returns the pair (0, 0) and leaves the store as it is;
    when the symbol has no Book it also writes the line
    "Error: Symbol <symbol> not found for price range." to [std::cerr], and
    when the Book is empty it writes nothing. *)
Theorem getPriceRange_not_found (s : Store) (symbol : string) :
  book s symbol = [] →
  getPriceRange symbol s
  = mkRes (0, 0) s
      match s !! symbol with
      | None =>
          [Cerr ("Error: Symbol " +:+ symbol +:+ " not found for price range.")]
      | Some _ => []
      end.
Proof.
  unfold book. destruct (s !! symbol) as [orders|] eqn:Hs; simpl.
  - intros ->. by apply getPriceRange_empty.
  - intros _. by apply getPriceRange_absent.
Qed.

Lemma getPriceRange_not_found_witness :
  book ∅ "TCS" = [] ∧
  getPriceRange "TCS" ∅
  = mkRes (0, 0) ∅ [Cerr "Error: Symbol TCS not found for price range."].
Proof.
  split; [reflexivity|].
  exact (getPriceRange_not_found ∅ "TCS" eq_refl).
Defined.

(** C2, as stated, fails: [remove] on a symbol with no Book hands the caller
    the same (void) result as a removal that found the symbol; the missing
    symbol only shows as a line on [std::cerr]. *)
Lemma silent_remove_of_absent :
  remove "TCS" ∅
  = mkRes () ∅ [Cerr "Error: Symbol TCS not found for removal."] ∧
  remove "TCS" {["TCS" := [mkOrder 10 2]]} = mkRes () ∅ [] ∧
  value (remove "TCS" ∅) = value (remove "TCS" {["TCS" := [mkOrder 10 2]]}).
Proof. split_and!; vm_compute; reflexivity. Qed.

(** C2, as the code has it: for a symbol with no Book, [remove] returns
    nothing to the caller, exactly as it does when the symbol has a Book; it
    writes the line "Error: Symbol <symbol> not found for removal." to
    [std::cerr] and leaves the store as it is. *)
Theorem remove_not_found (s : Store) (symbol : string) :
  s !! symbol = None →
  remove symbol s
  = mkRes () s [Cerr ("Error: Symbol " +:+ symbol +:+ " not found for removal.")]
  ∧ ∀ s', value (remove symbol s') = value (remove symbol s).
Proof.
  intros Hs. split; [by apply remove_absent|].
  intros s'. by destruct (value (remove symbol s')), (value (remove symbol s)).
Qed.

Lemma remove_not_found_witness :
  (∅ : Store) !! "TCS" = None ∧
  remove "TCS" ∅ = mkRes () ∅ [Cerr "Error: Symbol TCS not found for removal."].
Proof.
  split; [reflexivity|].
  exact (proj1 (remove_not_found ∅ "TCS" eq_refl)).
Defined.

(** ** Removal *)

Lemma absent_step s symbol op :
  (∀ order, op ≠ Insert symbol order) →
  s !! symbol = None → step s op !! symbol = None.
Proof.
  intros Hop Hs. destruct op as [k order|k| |k].
  - rewrite step_Insert. rewrite lookup_insert_ne; [done|].
    intros ->. by apply (Hop order).
  - rewrite step_Remove. apply lookup_delete_None. by right.
  - by rewrite step_Display.
  - by rewrite step_GetPriceRange.
Qed.

Lemma absent_exec ops s symbol :
  Forall (λ op, ∀ order, op ≠ Insert symbol order) ops →
  s !! symbol = None → exec ops s !! symbol = None.
Proof.
  revert s. induction ops as [|op ops IH]; intros s Hops Hs; [done|].
  apply Forall_cons in Hops as [Hop Hops].
  rewrite exec_cons. apply IH; [done|]. by apply absent_step.
Qed.

(** C5, as stated, fails: after insert and remove, [getPriceRange] and
    [remove] return to the caller what they return for a symbol that still
    has a Book (here one level at price 0): the pair (0, 0), and nothing. *)
Lemma removal_outcome_aliases :
  value (getPriceRange "TCS" removed_TCS) = (0, 0) ∧
  value (getPriceRange "TCS" {["TCS" := [mkOrder 10 0]]}) = (0, 0) ∧
  value (remove "TCS" removed_TCS)
  = value (remove "TCS" {["TCS" := [mkOrder 10 0]]}).
Proof. split_and!; vm_compute; reflexivity. Qed.

(** C5, as the code has it: after an insert for a symbol followed by a
    removal of that symbol, and as long as no later operation inserts for
    the symbol again, the symbol has no Book; a subsequent [getPriceRange]
    returns (0, 0) and writes its "not found" line to [std::cerr], and a
    subsequent [remove] leaves the store as it is and writes its "not found"
    line to [std::cerr]. *)
Theorem removal_terminal (s : Store) (symbol : string) (order : Order)
    (later : list Op) :
  Forall (λ op, ∀ o, op ≠ Insert symbol o) later →
  let s' := exec (Insert symbol order :: Remove symbol :: later) s in
  s' !! symbol = None ∧
  getPriceRange symbol s'
  = mkRes (0, 0) s'
      [Cerr ("Error: Symbol " +:+ symbol +:+ " not found for price range.")] ∧
  remove symbol s'
  = mkRes () s'
      [Cerr ("Error: Symbol " +:+ symbol +:+ " not found for removal.")].
Proof.
  intros Hlater s'.
  assert (s' !! symbol = None) as Hs'.
  { unfold s'. rewrite !exec_cons. apply absent_exec; [done|].
    rewrite step_Remove. apply lookup_delete_eq. }
  split_and!; [done|by apply getPriceRange_absent|by apply remove_absent].
Qed.

Lemma removal_terminal_witness :
  Forall (λ op, ∀ o, op ≠ Insert "TCS" o)
    [GetPriceRange "TCS"; Insert "INFY" (mkOrder 15 4); Remove "TCS"] ∧
  getPriceRange "TCS" {["INFY" := [mkOrder 15 4]]}
  = mkRes (0, 0) {["INFY" := [mkOrder 15 4]]}
      [Cerr "Error: Symbol TCS not found for price range."] ∧
  remove "TCS" {["INFY" := [mkOrder 15 4]]}
  = mkRes () {["INFY" := [mkOrder 15 4]]}
      [Cerr "Error: Symbol TCS not found for removal."].
Proof.
  assert (Forall (λ op, ∀ o, op ≠ Insert "TCS" o)
            [GetPriceRange "TCS"; Insert "INFY" (mkOrder 15 4); Remove "TCS"])
    as Hlater by (repeat constructor; intros o; discriminate).
  split; [exact Hlater|].
  exact (proj2 (removal_terminal ∅ "TCS" (mkOrder 10 2)
                  [GetPriceRange "TCS"; Insert "INFY" (mkOrder 15 4); Remove "TCS"]
                  Hlater)).
Defined.

(** ** Operations that leave the store alone *)

(** C9: [getPriceRange] and [display] give back the store they were given,
    in every state, and [remove] on a symbol with no Book gives back the
    store it was given. *)
Theorem queries_keep_store (s : Store) (symbol : string) :
  store (getPriceRange symbol s) = s ∧
  store (display s) = s ∧
  (s !! symbol = None → store (remove symbol s) = s).
Proof.
  split_and!.
  - apply getPriceRange_store.
  - apply display_store.
  - intros Hs. by rewrite remove_absent.
Qed.

Lemma queries_keep_store_witness :
  ({["INFY" := [mkOrder 10 2]]} : Store) !! "TCS" = None ∧
  store (remove "TCS" {["INFY" := [mkOrder 10 2]]})
  = {["INFY" := [mkOrder 10 2]]}.
Proof.
  split; [reflexivity|].
  exact (proj2 (proj2 (queries_keep_store {["INFY" := [mkOrder 10 2]]} "TCS"))
           eq_refl).
Defined.

(** ** Aggregation *)

(** C3, as stated, fails: the lot sizes 2147483647 and 1, inserted for one
    symbol at one price into the empty store, leave one level whose quantity
    is -2147483648, not their sum 2147483648. *)
Lemma lot_sum_overflow :
  levels ∅ "TCS" 2 = [] ∧
  Forall (λ op, op ≠ Remove "TCS") overflow_ops ∧
  lots "TCS" 2 overflow_ops = [2147483647; 1] ∧
  levels (exec overflow_ops ∅) "TCS" 2 = [mkOrder (-2147483648) 2] ∧
  levels (exec overflow_ops ∅) "TCS" 2
  ≠ [mkOrder (total (lots "TCS" 2 overflow_ops)) 2].
Proof.
  split_and!; try (vm_compute; reflexivity).
  - repeat constructor; discriminate.
  - vm_compute. discriminate.
Qed.

(** C3, as the code has it: take a store in which symbol S has no level at
    price P, and a sequence of operations without a removal of S that
    inserts at (S, P), in this order, the lot sizes q1..qn (n at least 1),
    none negative and with q1+...+qn at most 2147483647.  Afterwards the
    store holds exactly one level at (S, P), and its quantity is
    q1+...+qn. *)
Theorem aggregation (s : Store) (symbol : string) (p : Z) (ops : list Op) :
  levels s symbol p = [] →
  Forall (λ op, op ≠ Remove symbol) ops →
  lots symbol p ops ≠ [] →
  Forall (λ q, 0 ≤ q) (lots symbol p ops) →
  total (lots symbol p ops) ≤ Int.max →
  levels (exec ops s) symbol p = [mkOrder (total (lots symbol p ops)) p].
Proof.
  intros Hfresh Hkeep Hne Hpos Hmax.
  rewrite (levels_exec ops s symbol p None);
    [|by apply lots_fits|by rewrite Hfresh].
  rewrite post_lots by done.
  destruct (lots symbol p ops) as [|q qs] eqn:Hlots; [done|]. simpl level_of.
  rewrite IntFacts.wrap_id; [by rewrite Z.add_0_l|].
  pose proof (total_nonneg _ Hpos).
  unfold Int.in_range, Int.min, Int.max in *. simpl in *. lia.
Qed.

Lemma aggregation_witness :
  levels ∅ "A" 2 = [] ∧
  lots "A" 2 scenario_ops = [10; 20] ∧
  levels (exec scenario_ops ∅) "A" 2 = [mkOrder 30 2].
Proof.
  split_and!; [reflexivity|reflexivity|].
  refine (aggregation ∅ "A" 2 scenario_ops _ _ _ _ _).
  - reflexivity.
  - repeat constructor; discriminate.
  - vm_compute. discriminate.
  - vm_compute. repeat constructor; discriminate.
  - vm_compute. discriminate.
Defined.

(** ** Invariant I1 *)

(** C6: in every store that a sequence of operations builds from the empty
    store, no Book holds two levels at one price. *)
Theorem reachable_unique_prices (s : Store) :
  reachable s →
  ∀ symbol orders, s !! symbol = Some orders → NoDup (price <$> orders).
Proof.
  intros [ops ->]. apply unique_prices_exec.
  intros symbol orders Hl. by rewrite lookup_empty in Hl.
Qed.

Lemma reachable_unique_prices_witness :
  reachable (exec scenario_ops ∅) ∧
  exec scenario_ops ∅ !! "A" = Some [mkOrder 30 2; mkOrder 5 1] ∧
  NoDup (price <$> [mkOrder 30 2; mkOrder 5 1]).
Proof.
  assert (reachable (exec scenario_ops ∅)) as Hreach by (by exists scenario_ops).
  assert (exec scenario_ops ∅ !! "A" = Some [mkOrder 30 2; mkOrder 5 1])
    as Hbook by (vm_compute; reflexivity).
  split_and!; [exact Hreach|exact Hbook|].
  exact (reachable_unique_prices (exec scenario_ops ∅) Hreach "A" _ Hbook).
Defined.

(** ** Invariant I2 *)

(** C7, as stated, fails: after the lot sizes 2147483647 and 1, neither
    negative, the level holds -2147483648, which is not the sum 2147483648 of
    what was inserted, and the second insert took the quantity down from
    2147483647. *)
Lemma quantity_overflow :
  Forall nonneg_op overflow_ops ∧
  Forall (λ op, op ≠ Remove "TCS") overflow_ops ∧
  inserted "TCS" 2 overflow_ops = Some 2147483648 ∧
  levels (exec (take 1 overflow_ops) ∅) "TCS" 2 = [mkOrder 2147483647 2] ∧
  levels (exec overflow_ops ∅) "TCS" 2 = [mkOrder (-2147483648) 2] ∧
  levels (exec overflow_ops ∅) "TCS" 2 ≠ [mkOrder 2147483648 2].
Proof.
  split_and!; try (vm_compute; reflexivity).
  - repeat constructor; vm_compute; discriminate.
  - repeat constructor; discriminate.
  - vm_compute. discriminate.
Qed.

(** C7, as the code has it: along a sequence of operations from the empty
    store whose inserted lot sizes are [int] values, the levels of a symbol
    at a price are exactly one level holding the sum of the lot sizes
    inserted there since the last removal of the symbol, wrapped into the
    range of [int] (and no level when nothing was inserted there since).
    When moreover no inserted lot size is negative and that sum is at most
    2147483647, the quantity is the sum itself, and it is at least the
    quantity the level had at any earlier point of the sequence after which
    the symbol was not removed. *)
Theorem quantity_is_ledger (ops : list Op) (symbol : string) (p : Z) :
  Forall int_op ops →
  levels (exec ops ∅) symbol p
  = match inserted symbol p ops with
    | None => []
    | Some q => [mkOrder (Int.wrap q) p]
    end
  ∧ (Forall nonneg_op ops →
     ∀ q, inserted symbol p ops = Some q → q ≤ Int.max →
       levels (exec ops ∅) symbol p = [mkOrder q p] ∧
       ∀ n e, e ∈ levels (exec (take n ops) ∅) symbol p →
              Forall (λ op, op ≠ Remove symbol) (drop n ops) →
              lotSize e ≤ q).
Proof.
  intros Hint.
  assert (∀ ops', Forall int_op ops' →
            levels (exec ops' ∅) symbol p
            = level_of p (inserted symbol p ops')) as Hledger.
  { intros ops' Hint'. apply levels_exec; [|apply levels_empty].
    eapply Forall_impl; [exact Hint'|]. intros op. apply int_op_fits. }
  split; [apply (Hledger ops Hint)|].
  intros Hpos q Hq Hmax.
  assert (0 ≤ q) as Hq0.
  { pose proof (post_nonneg symbol p ops None Hpos) as Hnn.
    fold (inserted symbol p ops) in Hnn. rewrite Hq in Hnn. by apply Hnn. }
  split.
  - rewrite (Hledger ops Hint), Hq. simpl.
    rewrite IntFacts.wrap_id; [done|]. unfold Int.in_range, Int.min, Int.max in *. lia.
  - intros n e He Hkeep.
    rewrite (Hledger (take n ops)) in He by by apply Forall_take.
    destruct (inserted symbol p (take n ops)) as [q0|] eqn:Hq0';
      [|by apply elem_of_nil in He].
    apply list_elem_of_singleton in He as ->. simpl.
    assert (0 ≤ q0) as Hq00.
    { pose proof (post_nonneg symbol p (take n ops) None) as Hnn.
      fold (inserted symbol p (take n ops)) in Hnn. rewrite Hq0' in Hnn.
      apply Hnn; [by apply Forall_take|done]. }
    destruct (post_grows symbol p (drop n ops) q0) as (q' & Hq' & Hle);
      [by apply Forall_drop|done|].
    assert (q' = q) as ->.
    { unfold inserted in Hq, Hq0'.
      rewrite <- (take_drop n ops), foldl_app, Hq0', Hq' in Hq. congruence. }
    rewrite IntFacts.wrap_id; [done|]. unfold Int.in_range, Int.min, Int.max in *. lia.
Qed.

Lemma quantity_is_ledger_witness :
  Forall int_op scenario_ops ∧
  Forall nonneg_op scenario_ops ∧
  inserted "A" 2 scenario_ops = Some 30 ∧
  levels (exec scenario_ops ∅) "A" 2 = [mkOrder 30 2] ∧
  ∀ n e, e ∈ levels (exec (take n scenario_ops) ∅) "A" 2 →
         Forall (λ op, op ≠ Remove "A") (drop n scenario_ops) →
         lotSize e ≤ 30.
Proof.
  assert (Forall int_op scenario_ops) as Hint
    by (repeat constructor; vm_compute; discriminate).
  assert (Forall nonneg_op scenario_ops) as Hpos
    by (repeat constructor; vm_compute; discriminate).
  assert (inserted "A" 2 scenario_ops = Some 30) as Hsum by reflexivity.
  assert (30 ≤ Int.max) as Hmax by (vm_compute; discriminate).
  split_and!; [exact Hint|exact Hpos|exact Hsum|..];
    apply (proj2 (quantity_is_ledger scenario_ops "A" 2 Hint) Hpos 30 Hsum Hmax).
Defined.

(** ** Distinct prices and the price range *)

(** C4: an insert at a price that the symbol's Book does not hold yet adds a
    level of its own at the end of the Book and leaves the others as they
    are; for a symbol with a non-empty Book, [getPriceRange] returns the
    prices of two of its levels, the first no greater and the second no
    smaller than the price of every level of the Book; and after
    insert(S, 2, 10); insert(S, 5, 20) on a store where S has no Book, the
    Book of S is the two levels {2:10}, {5:20} and the price range of S is
    (2, 5). *)
Theorem distinct_prices_and_range (s : Store) (symbol : string) :
  (∀ order, price order ∉ price <$> book s symbol →
     store (insert symbol order s) !! symbol = Some (book s symbol ++ [order]))
  ∧ (book s symbol ≠ [] →
     ∃ lo hi,
       getPriceRange symbol s = mkRes (price lo, price hi) s [] ∧
       lo ∈ book s symbol ∧ hi ∈ book s symbol ∧
       ∀ o, o ∈ book s symbol → price lo ≤ price o ≤ price hi)
  ∧ (s !! symbol = None →
     exec [Insert symbol (mkOrder 10 2); Insert symbol (mkOrder 20 5)] s
       !! symbol = Some [mkOrder 10 2; mkOrder 20 5] ∧
     value (getPriceRange symbol
              (exec [Insert symbol (mkOrder 10 2); Insert symbol (mkOrder 20 5)] s))
     = (2, 5)).
Proof.
  split; [|split].
  - intros order Hfresh. rewrite insert_eq; simpl.
    rewrite lookup_insert_eq. by rewrite merged_miss.
  - unfold book. destruct (s !! symbol) as [[|first rest]|] eqn:Hs; simpl;
      [done| |done].
    intros _. by apply getPriceRange_present.
  - intros Hs.
    assert (exec [Insert symbol (mkOrder 10 2); Insert symbol (mkOrder 20 5)] s
            = <[symbol := [mkOrder 10 2; mkOrder 20 5]]> s) as ->.
    { change (exec [Insert symbol (mkOrder 10 2); Insert symbol (mkOrder 20 5)] s)
        with (step (step s (Insert symbol (mkOrder 10 2)))
                (Insert symbol (mkOrder 20 5))).
      rewrite !step_Insert. unfold book. rewrite Hs; simpl.
      rewrite lookup_insert_eq; simpl. by rewrite insert_insert_eq. }
    split; [apply lookup_insert_eq|].
    run.
    by rewrite lookup_insert_eq.
Qed.

Lemma distinct_prices_and_range_witness :
  store (insert "TEST" (mkOrder 20 5) {["TEST" := [mkOrder 10 2]]}) !! "TEST"
  = Some [mkOrder 10 2; mkOrder 20 5] ∧
  (∃ lo hi,
    getPriceRange "TEST" {["TEST" := [mkOrder 10 2; mkOrder 20 5; mkOrder 30 1]]}
    = mkRes (price lo, price hi)
        {["TEST" := [mkOrder 10 2; mkOrder 20 5; mkOrder 30 1]]} [] ∧
    lo ∈ [mkOrder 10 2; mkOrder 20 5; mkOrder 30 1] ∧
    hi ∈ [mkOrder 10 2; mkOrder 20 5; mkOrder 30 1] ∧
    ∀ o, o ∈ [mkOrder 10 2; mkOrder 20 5; mkOrder 30 1] →
         price lo ≤ price o ≤ price hi) ∧
  (exec [Insert "TEST" (mkOrder 10 2); Insert "TEST" (mkOrder 20 5)] ∅
     !! "TEST" = Some [mkOrder 10 2; mkOrder 20 5] ∧
   value (getPriceRange "TEST"
            (exec [Insert "TEST" (mkOrder 10 2); Insert "TEST" (mkOrder 20 5)] ∅))
   = (2, 5)).
Proof.
  split; [|split].
  - refine (proj1 (distinct_prices_and_range {["TEST" := [mkOrder 10 2]]} "TEST")
              (mkOrder 20 5) _).
    vm_compute. intros Hin. apply list_elem_of_singleton in Hin. discriminate.
  - refine (proj1 (proj2 (distinct_prices_and_range
              {["TEST" := [mkOrder 10 2; mkOrder 20 5; mkOrder 30 1]]} "TEST")) _).
    vm_compute. discriminate.
  - exact (proj2 (proj2 (distinct_prices_and_range ∅ "TEST"))
             (lookup_empty "TEST")).
Defined.

(** ** Zero lot sizes and zero prices *)

(** C10: an insert with lot size 0 at a price where the symbol has no level
    creates a level holding quantity 0 there, and the price range of the
    symbol afterwards encloses that price (it is exactly that price when the
    symbol had no Book before); for a symbol whose only level is at price 0,
    [getPriceRange] returns (0, 0), the value it also returns for a symbol
    with no Book. *)
Theorem zero_lot_and_zero_price (s : Store) (symbol : string) (p : Z) :
  (levels s symbol p = [] →
     levels (store (insert symbol (mkOrder 0 p) s)) symbol p = [mkOrder 0 p] ∧
     (∃ lo hi,
        value (getPriceRange symbol (store (insert symbol (mkOrder 0 p) s)))
        = (lo, hi) ∧ lo ≤ p ≤ hi) ∧
     (s !! symbol = None →
        value (getPriceRange symbol (store (insert symbol (mkOrder 0 p) s)))
        = (p, p)))
  ∧ (∀ q s0 absent,
       s !! symbol = Some [mkOrder q 0] → s0 !! absent = None →
       value (getPriceRange symbol s) = (0, 0) ∧
       value (getPriceRange absent s0) = (0, 0)).
Proof.
  split.
  - intros Hfresh. apply levels_nil in Hfresh.
    rewrite insert_eq; simpl store.
    rewrite (merged_miss (book s symbol) (mkOrder 0 p)) by done.
    set (s' := <[symbol := book s symbol ++ [mkOrder 0 p]]> s).
    assert (s' !! symbol = Some (book s symbol ++ [mkOrder 0 p])) as Hs'
      by apply lookup_insert_eq.
    split_and!.
    + unfold levels, book at 1. rewrite Hs'; simpl.
      rewrite filter_app, filter_price_none by done.
      by rewrite filter_cons_True.
    + destruct (book s symbol ++ [mkOrder 0 p]) as [|first rest] eqn:Hbook.
      { by destruct (book s symbol). }
      destruct (getPriceRange_present s' symbol first rest Hs')
        as (lo & hi & -> & _ & _ & Hall).
      exists (price lo), (price hi). split; [done|].
      apply (Hall (mkOrder 0 p)). rewrite <- Hbook.
      apply elem_of_app. right. apply list_elem_of_here.
    + intros Hs. unfold book in Hs'. rewrite Hs in Hs'; simpl in Hs'.
      run. by rewrite Hs'.
  - intros q s0 absent Hs Hs0. split.
    + run. by rewrite Hs.
    + by rewrite getPriceRange_absent.
Qed.

Lemma zero_lot_and_zero_price_witness :
  levels (store (insert "TCS" (mkOrder 0 0) ∅)) "TCS" 0 = [mkOrder 0 0] ∧
  value (getPriceRange "TCS" (store (insert "TCS" (mkOrder 0 0) ∅))) = (0, 0) ∧
  value (getPriceRange "TCS" {["TCS" := [mkOrder 7 0]]}) = (0, 0) ∧
  value (getPriceRange "INFY" {["TCS" := [mkOrder 7 0]]}) = (0, 0).
Proof.
  assert (levels ∅ "TCS" 0 = []) as Hfresh by reflexivity.
  assert (({["TCS" := [mkOrder 7 0]]} : Store) !! "TCS" = Some [mkOrder 7 0])
    as Hlive by reflexivity.
  assert (({["TCS" := [mkOrder 7 0]]} : Store) !! "INFY" = None)
    as Hnone by reflexivity.
  destruct (proj1 (zero_lot_and_zero_price ∅ "TCS" 0) Hfresh) as (Hl & _ & Hr).
  destruct (proj2 (zero_lot_and_zero_price {["TCS" := [mkOrder 7 0]]} "TCS" 0)
              7 {["TCS" := [mkOrder 7 0]]} "INFY" Hlive Hnone) as (H0 & Ha).
  split_and!; [exact Hl|exact (Hr (lookup_empty "TCS"))|exact H0|exact Ha].
Defined.

(** * Further properties of the program *)

(** ** Operations on different symbols *)

Lemma step_comm s op1 op2 :
  (∀ k, target op1 = Some k → target op2 ≠ Some k) →
  step (step s op1) op2 = step (step s op2) op1.
Proof.
  intros Hdiff.
  destruct op1 as [k1 o1|k1| |k1], op2 as [k2 o2|k2| |k2];
    rewrite ?step_Display, ?step_GetPriceRange; try done;
    (assert (k1 ≠ k2) as Hne by (intros ->; by apply (Hdiff k2)));
    rewrite ?step_Insert, ?step_Remove.
  - unfold book. rewrite !lookup_insert_ne by done. by apply insert_insert_ne.
  - unfold book. rewrite lookup_delete_ne by done. by rewrite delete_insert_ne.
  - unfold book. rewrite lookup_delete_ne by done. by rewrite delete_insert_ne.
  - apply delete_delete.
Qed.

Lemma omap_target_cons op ops :
  omap target (op :: ops)
  = match target op with
    | Some k => k :: omap target ops
    | None => omap target ops
    end.
Proof. by destruct op. Qed.

Lemma NoDup_targets_tail op ops :
  NoDup (omap target (op :: ops)) → NoDup (omap target ops).
Proof.
  rewrite omap_target_cons. destruct (target op); [|done].
  by intros [_ ?]%NoDup_cons.
Qed.

Lemma exec_distinct_targets ops1 ops2 :
  ops1 ≡ₚ ops2 → NoDup (omap target ops1) → ∀ s, exec ops1 s = exec ops2 s.
Proof.
  induction 1 as [|op ops1 ops2 Hperm IH|op1 op2 ops|ops1 ops2 ops3 H12 IH12 H23 IH23];
    intros Hnd s.
  - done.
  - rewrite !exec_cons. apply IH. by eapply NoDup_targets_tail.
  - rewrite !exec_cons. f_equal. apply step_comm. intros k H2 H1.
    rewrite !omap_target_cons, H1, H2 in Hnd.
    apply NoDup_cons in Hnd as [Hnotin _]. apply Hnotin, list_elem_of_here.
  - rewrite IH12 by done. apply IH23. by rewrite <- H12.
Qed.

(** X1: two operations that do not write the same symbol can be swapped,
    and a sequence of operations that write pairwise different symbols
    leaves the same store in whatever order it runs. *)
Theorem distinct_symbols_commute (s : Store) :
  (∀ op1 op2,
     (∀ k, target op1 = Some k → target op2 ≠ Some k) →
     exec [op1; op2] s = exec [op2; op1] s) ∧
  (∀ ops1 ops2,
     ops1 ≡ₚ ops2 → NoDup (omap target ops1) → exec ops1 s = exec ops2 s).
Proof.
  split.
  - intros op1 op2 Hdiff. by apply step_comm.
  - intros ops1 ops2 Hperm Hnd. by apply exec_distinct_targets.
Qed.

Lemma distinct_symbols_commute_witness :
  initial_inserts ≡ₚ reverse initial_inserts ∧
  NoDup (omap target initial_inserts) ∧
  exec initial_inserts ∅ = exec (reverse initial_inserts) ∅.
Proof.
  assert (initial_inserts ≡ₚ reverse initial_inserts) as Hperm
    by (symmetry; apply reverse_Permutation).
  assert (NoDup (omap target initial_inserts)) as Hnd
    by (apply (bool_decide_unpack _); vm_compute; exact I).
  split_and!; [exact Hperm|exact Hnd|].
  exact (proj2 (distinct_symbols_commute ∅) _ _ Hperm Hnd).
Defined.

(** ** The life of a Book *)

Lemma lookup_step_alive s symbol op :
  bool_decide (is_Some (step s op !! symbol))
  = alive symbol (bool_decide (is_Some (s !! symbol))) op.
Proof.
  destruct op as [k o|k| |k]; simpl alive;
    rewrite ?step_Display, ?step_GetPriceRange; try done.
  - rewrite step_Insert. destruct (decide (k = symbol)) as [->|Hk].
    + rewrite lookup_insert_eq. by apply bool_decide_eq_true_2.
    + by rewrite lookup_insert_ne.
  - rewrite step_Remove. destruct (decide (k = symbol)) as [->|Hk].
    + rewrite lookup_delete_eq. apply bool_decide_eq_false_2. by intros [? ?].
    + by rewrite lookup_delete_ne.
Qed.

(** X2: whether a symbol has a Book after a sequence of operations is
    decided by the last insert or removal for that symbol in the sequence:
    it has one after an insert, none after a removal, and what it had
    before when the sequence holds neither. *)
Theorem book_lifecycle (ops : list Op) (s : Store) (symbol : string) :
  is_Some (exec ops s !! symbol)
  ↔ foldl (alive symbol) (bool_decide (is_Some (s !! symbol))) ops = true.
Proof.
  revert s. induction ops as [|op ops IH]; intros s.
  - simpl. by rewrite bool_decide_eq_true.
  - rewrite exec_cons, IH. simpl foldl. by rewrite lookup_step_alive.
Qed.

(** X3: an insert for a symbol right after its removal starts the Book
    afresh: the Book is the inserted order alone, whatever it held before
    the removal, and the other symbols are as they were. *)
Theorem insert_after_remove (s : Store) (symbol : string) (order : Order) :
  store (insert symbol order (store (remove symbol s)))
  = <[symbol := [order]]> s.
Proof.
  rewrite insert_eq, remove_store; simpl. unfold book.
  rewrite lookup_delete_eq; simpl. apply insert_delete_eq.
Qed.


(** ** Books are never empty *)

Lemma merged_cons e rest order :
  merged (e :: rest) order
  = if decide (price e = price order)
    then fetch_add e (lotSize order) :: rest
    else e :: merged rest order.
Proof.
  unfold merged; simpl. destruct (decide (price e = price order)); [done|].
  by destruct (scan rest order) as [[] rest'].
Qed.

Lemma merged_nil order : merged [] order = [order].
Proof. done. Qed.

Lemma merged_nonempty orders order : merged orders order ≠ [].
Proof.
  destruct orders as [|e rest]; [done|].
  rewrite merged_cons. by case_decide.
Qed.

Lemma nonempty_books_step s op : nonempty_books s → nonempty_books (step s op).
Proof.
  intros Hs. destruct op as [k order|k| |k];
    rewrite ?step_Display, ?step_GetPriceRange; try done.
  - rewrite step_Insert. intros symbol orders.
    destruct (decide (k = symbol)) as [->|Hk].
    + rewrite lookup_insert_eq. intros [= <-]. apply merged_nonempty.
    + rewrite lookup_insert_ne by done. apply Hs.
  - rewrite step_Remove. intros symbol orders Hl.
    apply lookup_delete_Some in Hl as [_ Hl]. by apply (Hs symbol).
Qed.

Lemma nonempty_books_exec ops s : nonempty_books s → nonempty_books (exec ops s).
Proof.
  revert s. induction ops as [|op ops IH]; intros s Hs; [done|].
  rewrite exec_cons. apply IH. by apply nonempty_books_step.
Qed.

Lemma nonempty_books_empty : nonempty_books ∅.
Proof. intros symbol orders Hl. by rewrite lookup_empty in Hl. Qed.

(** X4: in every store that a sequence of operations builds from the empty
    store, a symbol that has a Book has at least one level in it, so that
    [getPriceRange] answers with the prices of two of its levels and writes
    nothing: the branch for an empty vector is never taken. *)
Theorem reachable_books_nonempty (s : Store) (symbol : string)
    (orders : list Order) :
  reachable s → s !! symbol = Some orders →
  orders ≠ [] ∧
  ∃ lo hi, lo ∈ orders ∧ hi ∈ orders ∧
           getPriceRange symbol s = mkRes (price lo, price hi) s [].
Proof.
  intros [ops ->] Hs.
  assert (orders ≠ []) as Hne.
  { by apply (nonempty_books_exec ops ∅ nonempty_books_empty symbol). }
  split; [done|]. destruct orders as [|first rest]; [done|].
  destruct (getPriceRange_present _ _ _ _ Hs) as (lo & hi & Hr & Hlo & Hhi & _).
  by exists lo, hi.
Qed.

Lemma reachable_books_nonempty_witness :
  reachable (exec scenario_ops ∅) ∧
  exec scenario_ops ∅ !! "A" = Some [mkOrder 30 2; mkOrder 5 1] ∧
  ∃ lo hi, lo ∈ [mkOrder 30 2; mkOrder 5 1] ∧ hi ∈ [mkOrder 30 2; mkOrder 5 1] ∧
           getPriceRange "A" (exec scenario_ops ∅)
           = mkRes (price lo, price hi) (exec scenario_ops ∅) [].
Proof.
  assert (reachable (exec scenario_ops ∅)) as Hreach by (by exists scenario_ops).
  assert (exec scenario_ops ∅ !! "A" = Some [mkOrder 30 2; mkOrder 5 1])
    as Hbook by (vm_compute; reflexivity).
  split_and!; [exact Hreach|exact Hbook|].
  exact (proj2 (reachable_books_nonempty _ "A" _ Hreach Hbook)).
Defined.

(** ** The price range *)

(** X5: the pair that [getPriceRange] returns is ordered, in every store
    and for every symbol: its first component is at most its second. *)
Theorem price_range_ordered (s : Store) (symbol : string) :
  (value (getPriceRange symbol s)).1 ≤ (value (getPriceRange symbol s)).2.
Proof.
  destruct (s !! symbol) as [[|first rest]|] eqn:Hs.
  - by rewrite getPriceRange_empty.
  - destruct (getPriceRange_present _ _ _ _ Hs) as (lo & hi & -> & _ & _ & Hall).
    simpl. specialize (Hall first (list_elem_of_here _ _)). lia.
  - by rewrite getPriceRange_absent.
Qed.

(** The range of a Book is fixed by its prices: a lower and an upper bound
    of the prices that are themselves prices of the Book. *)
Lemma getPriceRange_bounds s symbol orders lo hi :
  s !! symbol = Some orders →
  lo ∈ price <$> orders → hi ∈ price <$> orders →
  (∀ p, p ∈ price <$> orders → lo ≤ p ≤ hi) →
  getPriceRange symbol s = mkRes (lo, hi) s [].
Proof.
  intros Hs Hlo Hhi Hall. destruct orders as [|first rest].
  { by apply elem_of_nil in Hlo. }
  destruct (getPriceRange_present _ _ _ _ Hs) as (l & h & -> & Hl & Hh & Hb).
  apply list_elem_of_fmap in Hlo as (olo & -> & Holo).
  apply list_elem_of_fmap in Hhi as (ohi & -> & Hohi).
  pose proof (Hb olo Holo). pose proof (Hb ohi Hohi).
  pose proof (Hall (price l) (list_elem_of_fmap_2 _ _ _ Hl)).
  pose proof (Hall (price h) (list_elem_of_fmap_2 _ _ _ Hh)).
  do 2 f_equal; lia.
Qed.

(** X6: an insert moves the price range of its symbol just enough to
    enclose the inserted price.  When the symbol has a Book with a level in
    it and its range is (lo, hi), the range after an insert at price p is
    (min lo p, max hi p); when the symbol has no level, the range after the
    insert is (p, p).  In both cases [getPriceRange] writes nothing. *)
Theorem price_range_after_insert (s : Store) (symbol : string) (order : Order) :
  getPriceRange symbol (store (insert symbol order s))
  = mkRes
      (match book s symbol with
       | [] => (price order, price order)
       | _ :: _ =>
           ((value (getPriceRange symbol s)).1 `min` price order,
            (value (getPriceRange symbol s)).2 `max` price order)
       end)
      (store (insert symbol order s)) [].
Proof.
  rewrite insert_eq; simpl store.
  set (s' := <[symbol := merged (book s symbol) order]> s).
  assert (s' !! symbol = Some (merged (book s symbol) order)) as Hs'
    by apply lookup_insert_eq.
  destruct (book s symbol) as [|first rest] eqn:Hbook.
  - rewrite merged_nil in Hs'.
    apply (getPriceRange_bounds _ _ _ _ _ Hs'); simpl fmap.
    + apply list_elem_of_here.
    + apply list_elem_of_here.
    + intros p ->%list_elem_of_singleton. lia.
  - assert (s !! symbol = Some (first :: rest)) as Hs.
    { unfold book in Hbook.
      destruct (s !! symbol) as [l|]; simpl in Hbook; [by subst|done]. }
    destruct (getPriceRange_present _ _ _ _ Hs) as (lo & hi & Hr & Hlo & Hhi & Hall).
    rewrite Hr. cbn [value fst snd].
    apply (getPriceRange_bounds _ _ _ _ _ Hs'); rewrite merged_prices.
    + destruct (Z.min_spec (price lo) (price order)) as [[_ ->]|[_ ->]];
        case_decide; try done; rewrite ?elem_of_app, ?list_elem_of_singleton;
        auto using list_elem_of_fmap_2.
    + destruct (Z.max_spec (price hi) (price order)) as [[_ ->]|[_ ->]];
        case_decide; try done; rewrite ?elem_of_app, ?list_elem_of_singleton;
        auto using list_elem_of_fmap_2.
    + intros p Hp.
      assert (p = price order ∨ p ∈ price <$> first :: rest) as [->|Hin].
      { case_decide; [by right|].
        apply elem_of_app in Hp as [?|Hp]; [by right|].
        apply list_elem_of_singleton in Hp. by left. }
      * lia.
      * apply list_elem_of_fmap in Hin as (o & -> & Ho).
        specialize (Hall o Ho). lia.
Qed.

(** ** What an insert leaves in place *)

Lemma merged_lookup orders order i o :
  orders !! i = Some o →
  ∃ o', merged orders order !! i = Some o' ∧ price o' = price o ∧
        (price o ≠ price order → o' = o).
Proof.
  revert i. induction orders as [|e rest IH]; intros i Hi; [done|].
  rewrite merged_cons. destruct (decide (price e = price order)) as [He|He].
  - destruct i as [|i]; simpl in *.
    + injection Hi as ->. exists (fetch_add o (lotSize order)).
      split_and!; [done|done|congruence].
    + by exists o.
  - destruct i as [|i]; simpl in *.
    + injection Hi as ->. by exists o.
    + by apply IH.
Qed.

Lemma merged_length orders order :
  (length orders ≤ length (merged orders order) ≤ S (length orders))%nat.
Proof.
  rewrite <- (length_fmap price (merged orders order)), merged_prices.
  case_decide; rewrite ?length_app, length_fmap; simpl; lia.
Qed.

(** X7: an insert keeps every level of its symbol's Book at its position
    and at its price, and changes no level at another price than the
    inserted one; the Book grows by at most one level, and the Book of every
    other symbol is as it was. *)
Theorem insert_keeps_levels (s : Store) (symbol : string) (order : Order) :
  (∀ i o, book s symbol !! i = Some o →
     ∃ o', book (store (insert symbol order s)) symbol !! i = Some o' ∧
           price o' = price o ∧ (price o ≠ price order → o' = o)) ∧
  (length (book s symbol)
   ≤ length (book (store (insert symbol order s)) symbol)
   ≤ S (length (book s symbol)))%nat ∧
  (∀ k, k ≠ symbol → store (insert symbol order s) !! k = s !! k).
Proof.
  rewrite insert_eq; simpl store.
  assert (book (<[symbol := merged (book s symbol) order]> s) symbol
          = merged (book s symbol) order) as ->.
  { unfold book at 1. by rewrite lookup_insert_eq. }
  split_and!.
  - intros i o. apply merged_lookup.
  - apply merged_length.
  - apply merged_length.
  - intros k Hk. by rewrite lookup_insert_ne.
Qed.

Lemma insert_keeps_levels_witness :
  book {["TCS" := [mkOrder 10 2; mkOrder 20 5]]} "TCS" !! 0%nat
  = Some (mkOrder 10 2) ∧
  ∃ o', book (store (insert "TCS" (mkOrder 7 5)
                       {["TCS" := [mkOrder 10 2; mkOrder 20 5]]})) "TCS" !! 0%nat
        = Some o' ∧
        price o' = 2 ∧ (2 ≠ 5 → o' = mkOrder 10 2).
Proof.
  assert (book {["TCS" := [mkOrder 10 2; mkOrder 20 5]]} "TCS" !! 0%nat
          = Some (mkOrder 10 2)) as Hat by reflexivity.
  split; [exact Hat|].
  exact (proj1 (insert_keeps_levels {["TCS" := [mkOrder 10 2; mkOrder 20 5]]}
                  "TCS" (mkOrder 7 5)) 0%nat (mkOrder 10 2) Hat).
Defined.

(** ** The order of inserts *)

Lemma total_Permutation qs1 qs2 : qs1 ≡ₚ qs2 → total qs1 = total qs2.
Proof. induction 1; simpl in *; lia. Qed.

Lemma keeps_not_Remove symbol ops :
  Forall keeps ops → Forall (λ op, op ≠ Remove symbol) ops.
Proof.
  intros Hkeep. eapply Forall_impl; [exact Hkeep|].
  intros op Hop ->. exact Hop.
Qed.

Lemma inserted_Permutation symbol p ops1 ops2 :
  ops1 ≡ₚ ops2 → Forall keeps ops1 →
  inserted symbol p ops1 = inserted symbol p ops2.
Proof.
  intros Hperm Hkeep. unfold inserted.
  rewrite !post_lots; [|apply keeps_not_Remove; by rewrite <- Hperm
                        |by apply keeps_not_Remove].
  assert (lots symbol p ops1 ≡ₚ lots symbol p ops2) as Hlots
    by (by apply omap_Permutation).
  rewrite <- (total_Permutation _ _ Hlots).
  destruct (lots symbol p ops1) as [|q qs].
  - apply Permutation_nil_l in Hlots. by rewrite <- Hlots.
  - destruct (lots symbol p ops2) as [|q2 qs2]; [|done].
    apply Permutation_nil_r in Hlots. discriminate.
Qed.

Lemma unique_levels_Permutation (l k : list Order) :
  NoDup (price <$> l) → NoDup (price <$> k) →
  (∀ p, filter (λ o, price o = p) l = filter (λ o, price o = p) k) →
  l ≡ₚ k.
Proof.
  intros Hl Hk Hsame.
  apply NoDup_Permutation; [by eapply NoDup_fmap_1|by eapply NoDup_fmap_1|].
  intros o. split; intros Ho.
  - assert (o ∈ filter (λ o', price o' = price o) l) as Hin
      by (by apply list_elem_of_filter).
    rewrite Hsame in Hin. by apply list_elem_of_filter in Hin as [_ ?].
  - assert (o ∈ filter (λ o', price o' = price o) k) as Hin
      by (by apply list_elem_of_filter).
    rewrite <- Hsame in Hin. by apply list_elem_of_filter in Hin as [_ ?].
Qed.

Lemma unique_prices_empty : unique_prices ∅.
Proof. intros symbol orders Hl. by rewrite lookup_empty in Hl. Qed.

Lemma book_NoDup s symbol : unique_prices s → NoDup (price <$> book s symbol).
Proof.
  intros Hs. unfold book. destruct (s !! symbol) as [orders|] eqn:Hl; simpl.
  - by apply (Hs symbol).
  - apply NoDup_nil_2.
Qed.

Lemma book_nil_absent s symbol :
  nonempty_books s → book s symbol = [] → s !! symbol = None.
Proof.
  intros Hs. unfold book. destruct (s !! symbol) as [orders|] eqn:Hl; [|done].
  simpl. intros ->. by destruct (Hs symbol [] Hl).
Qed.

Lemma book_cons_present s symbol first rest :
  book s symbol = first :: rest → s !! symbol = Some (first :: rest).
Proof.
  unfold book. destruct (s !! symbol) as [orders|]; simpl; [by intros ->|done].
Qed.

(** X8: when the same operations, none of them a removal and every lot size
    an [int], run on the empty store in two different orders, every symbol
    ends up with the same levels, in a possibly different order within its
    Book, and [getPriceRange] returns the same pair and writes the same
    output for it. *)
Theorem insert_order_irrelevant (ops1 ops2 : list Op) (symbol : string) :
  ops1 ≡ₚ ops2 → Forall keeps ops1 → Forall int_op ops1 →
  book (exec ops1 ∅) symbol ≡ₚ book (exec ops2 ∅) symbol ∧
  value (getPriceRange symbol (exec ops1 ∅))
  = value (getPriceRange symbol (exec ops2 ∅)) ∧
  output (getPriceRange symbol (exec ops1 ∅))
  = output (getPriceRange symbol (exec ops2 ∅)).
Proof.
  intros Hperm Hkeep Hint.
  assert (Forall int_op ops2) as Hint2 by (by rewrite <- Hperm).
  assert (book (exec ops1 ∅) symbol ≡ₚ book (exec ops2 ∅) symbol) as Hbooks.
  { apply unique_levels_Permutation.
    - apply book_NoDup, unique_prices_exec, unique_prices_empty.
    - apply book_NoDup, unique_prices_exec, unique_prices_empty.
    - intros p. fold (levels (exec ops1 ∅) symbol p).
      fold (levels (exec ops2 ∅) symbol p).
      rewrite (levels_exec ops1 ∅ symbol p None);
        [|eapply Forall_impl; [eassumption|apply int_op_fits]|apply levels_empty].
      rewrite (levels_exec ops2 ∅ symbol p None);
        [|eapply Forall_impl; [eassumption|apply int_op_fits]|apply levels_empty].
      fold (inserted symbol p ops1). fold (inserted symbol p ops2).
      by rewrite (inserted_Permutation symbol p ops1 ops2). }
  split; [done|].
  pose proof (nonempty_books_exec ops1 ∅ nonempty_books_empty) as Hne1.
  pose proof (nonempty_books_exec ops2 ∅ nonempty_books_empty) as Hne2.
  destruct (book (exec ops1 ∅) symbol) as [|first rest] eqn:Hb1.
  - apply Permutation_nil_l in Hbooks.
    rewrite !getPriceRange_absent by (by apply book_nil_absent). done.
  - apply book_cons_present in Hb1.
    destruct (getPriceRange_present _ _ _ _ Hb1) as (lo & hi & -> & Hlo & Hhi & Hall).
    destruct (book (exec ops2 ∅) symbol) as [|first2 rest2] eqn:Hb2.
    { by apply Permutation_nil_r in Hbooks. }
    apply book_cons_present in Hb2.
    rewrite (getPriceRange_bounds _ _ _ (price lo) (price hi) Hb2); [done|..].
    + apply list_elem_of_fmap_2. by rewrite <- Hbooks.
    + apply list_elem_of_fmap_2. by rewrite <- Hbooks.
    + intros p (o & -> & Ho)%list_elem_of_fmap. apply Hall. by rewrite Hbooks.
Qed.

Lemma insert_order_irrelevant_witness :
  scenario_ops ≡ₚ reverse scenario_ops ∧
  Forall keeps scenario_ops ∧ Forall int_op scenario_ops ∧
  book (exec scenario_ops ∅) "A" ≡ₚ book (exec (reverse scenario_ops) ∅) "A" ∧
  value (getPriceRange "A" (exec (reverse scenario_ops) ∅)) = (1, 2).
Proof.
  assert (scenario_ops ≡ₚ reverse scenario_ops) as Hperm
    by (symmetry; apply reverse_Permutation).
  assert (Forall keeps scenario_ops) as Hkeep by (repeat constructor).
  assert (Forall int_op scenario_ops) as Hint
    by (repeat constructor; vm_compute; discriminate).
  destruct (insert_order_irrelevant _ _ "A" Hperm Hkeep Hint) as (Hb & Hv & _).
  split_and!; [exact Hperm|exact Hkeep|exact Hint|exact Hb|].
  rewrite <- Hv. vm_compute. reflexivity.
Defined.

(** ** What [display] prints *)

Lemma display_loop_output pairs s :
  output (display_loop pairs s) = (λ entry, Cout (show_entry entry)) <$> pairs.
Proof.
  revert s. induction pairs as [|entry rest IH]; intros s; [done|].
  simpl. unfold mbind, M_bind; simpl. by rewrite IH.
Qed.

Lemma display_output s :
  output (display s) = (λ entry, Cout (show_entry entry)) <$> map_to_list s.
Proof. run. apply display_loop_output. Qed.

(** X9: [display] writes one line to [std::cout] for every symbol of the
    store and nothing else: the line of each symbol is there, every line is
    the line of a symbol with its Book, and there are as many lines as
    symbols; nothing goes to [std::cerr]. *)
Theorem display_lines (s : Store) :
  (∀ symbol orders,
     s !! symbol = Some orders →
     Cout (show_entry (symbol, orders)) ∈ output (display s)) ∧
  (∀ event,
     event ∈ output (display s) →
     ∃ symbol orders,
       s !! symbol = Some orders ∧ event = Cout (show_entry (symbol, orders))) ∧
  length (output (display s)) = size s.
Proof.
  rewrite display_output. split_and!.
  - intros symbol orders Hs.
    apply (list_elem_of_fmap_2 (λ entry, Cout (show_entry entry)) _ (symbol, orders)).
    by apply elem_of_map_to_list.
  - intros event ([symbol orders] & -> & Hin)%list_elem_of_fmap.
    exists symbol, orders. split; [|done]. by apply elem_of_map_to_list.
  - rewrite length_fmap. apply length_map_to_list.
Qed.

Lemma display_lines_witness :
  ({["TCS" := [mkOrder 10 2]; "INFY" := [mkOrder 15 4; mkOrder 1 7]]} : Store)
    !! "INFY" = Some [mkOrder 15 4; mkOrder 1 7] ∧
  Cout "INFY: {lotSize: 15, price: 4} {lotSize: 1, price: 7} "
  ∈ output (display {["TCS" := [mkOrder 10 2];
                      "INFY" := [mkOrder 15 4; mkOrder 1 7]]}).
Proof.
  assert (({["TCS" := [mkOrder 10 2]; "INFY" := [mkOrder 15 4; mkOrder 1 7]]}
           : Store) !! "INFY" = Some [mkOrder 15 4; mkOrder 1 7]) as Hs
    by reflexivity.
  split; [exact Hs|].
  exact (proj1 (display_lines _) "INFY" _ Hs).
Defined.

(** ** The self-tests *)

Lemma bindT_silent {A B} (m : T A) (k : A → T B) s a s' :
  m s = mkRes (inr a) s' [] → bindT m k s = k a s'.
Proof. intros Hm. unfold bindT. rewrite Hm; simpl. by destruct (k a s'). Qed.



Lemma call_insert symbol order s :
  call (insert symbol order) s
  = mkRes (inr ()) (<[symbol := merged (book s symbol) order]> s) [].
Proof. unfold call. by rewrite insert_eq. Qed.

Lemma call_remove_present symbol orders s :
  s !! symbol = Some orders →
  call (remove symbol) s = mkRes (inr ()) (delete symbol s) [].
Proof. intros Hs. unfold call. by rewrite (remove_present _ _ _ Hs). Qed.

Lemma call_find symbol s : call (find symbol) s = mkRes (inr (s !! symbol)) s [].
Proof. done. Qed.

Lemma assert_true s : assert true s = mkRes (inr ()) s [].
Proof. done. Qed.









Lemma insert_on_book symbol order orders s :
  store (insert symbol order (<[symbol := orders]> s))
  = <[symbol := merged orders order]> s.
Proof.
  rewrite insert_eq; cbn [store]. unfold book.
  rewrite lookup_insert_eq; simpl. apply insert_insert_eq.
Qed.





Lemma testRemove_eq s :
  SelfTest.testRemove s = mkRes (inr true) (delete "TEST" s) [].
Proof.
  unfold SelfTest.testRemove.
  erewrite bindT_silent by apply call_insert.
  erewrite bindT_silent by (eapply call_remove_present, lookup_insert_eq).
  erewrite bindT_silent by apply call_find.
  rewrite delete_insert_eq, lookup_delete_eq.
  erewrite bindT_silent by apply assert_true.
  done.
Qed.




(** X10: [testRemove] passes on every store: it returns true without
    tripping its assertion and without output, and it leaves the store it
    was given with the Book of "TEST" removed, whatever that Book held, and
    with every other Book as it was. *)
Theorem testRemove_always_passes (s : Store) :
  value (SelfTest.testRemove s) = inr true ∧
  output (SelfTest.testRemove s) = [] ∧
  store (SelfTest.testRemove s) !! "TEST" = None ∧
  ∀ symbol, symbol ≠ "TEST" →
            store (SelfTest.testRemove s) !! symbol = s !! symbol.
Proof.
  rewrite testRemove_eq; cbn [value store output]. split_and!; try done.
  - apply lookup_delete_eq.
  - intros symbol Hne. by apply lookup_delete_ne.
Qed.

Lemma testRemove_always_passes_witness :
  value (SelfTest.testRemove {["TEST" := [mkOrder 1 9]; "TCS" := [mkOrder 3 3]]})
  = inr true ∧
  "TCS" ≠ "TEST" ∧
  store (SelfTest.testRemove {["TEST" := [mkOrder 1 9]; "TCS" := [mkOrder 3 3]]})
    !! "TCS" = Some [mkOrder 3 3].
Proof.
  assert ("TCS" ≠ "TEST") as Hne by discriminate.
  destruct (testRemove_always_passes
              {["TEST" := [mkOrder 1 9]; "TCS" := [mkOrder 3 3]]})
    as (Hv & _ & _ & Hother).
  split_and!; [exact Hv|exact Hne|].
  rewrite (Hother "TCS" Hne). reflexivity.
Defined.





(** ** The run of [main] *)






(** ** Levels stay *)

Lemma merged_prefix orders order :
  price <$> orders `prefix_of` price <$> merged orders order.
Proof.
  rewrite merged_prices. case_decide; [done|]. by apply prefix_app_r.
Qed.

Lemma prices_prefix_step s symbol op :
  op ≠ Remove symbol →
  price <$> book s symbol `prefix_of` price <$> book (step s op) symbol.
Proof.
  intros Hop. destruct op as [k order|k| |k];
    rewrite ?step_Display, ?step_GetPriceRange; try done.
  - destruct (decide (k = symbol)) as [->|Hk].
    + rewrite book_Insert_eq. apply merged_prefix.
    + by rewrite book_Insert_ne.
  - rewrite book_Remove_ne; [done|]. congruence.
Qed.

(** X15: as long as a symbol is not removed, the prices of its Book only
    grow at the end: after any sequence of operations without a removal of
    the symbol, the Book starts with levels at the same prices, in the same
    order, as before, whatever lot sizes (zero and negative ones included)
    were inserted. *)
Theorem levels_persist (ops : list Op) (s : Store) (symbol : string) :
  Forall (λ op, op ≠ Remove symbol) ops →
  price <$> book s symbol `prefix_of` price <$> book (exec ops s) symbol.
Proof.
  revert s. induction ops as [|op ops IH]; intros s Hkeep; [done|].
  apply Forall_cons in Hkeep as [Hop Hkeep]. rewrite exec_cons.
  etrans; [by apply prices_prefix_step|by apply IH].
Qed.

Lemma levels_persist_witness :
  Forall (λ op, op ≠ Remove "A")
    [Insert "A" (mkOrder (-30) 2); Remove "B"; Insert "A" (mkOrder 0 7)] ∧
  [2; 1] `prefix_of`
    price <$> book (exec [Insert "A" (mkOrder (-30) 2); Remove "B";
                          Insert "A" (mkOrder 0 7)]
                      {["A" := [mkOrder 30 2; mkOrder 5 1]]}) "A".
Proof.
  assert (Forall (λ op, op ≠ Remove "A")
            [Insert "A" (mkOrder (-30) 2); Remove "B"; Insert "A" (mkOrder 0 7)])
    as Hkeep by (repeat constructor; discriminate).
  split; [exact Hkeep|].
  exact (levels_persist _ {["A" := [mkOrder 30 2; mkOrder 5 1]]} "A" Hkeep).
Defined.

(** ** Negative lot sizes *)

Lemma fetch_add_back e q :
  Int.in_range (lotSize e) → fetch_add (fetch_add e q) (- q) = e.
Proof.
  intros He. destruct e as [lot pr]; unfold fetch_add; simpl in *.
  rewrite IntFacts.wrap_add_l. replace (lot + q + - q) with lot by lia.
  by rewrite IntFacts.wrap_id.
Qed.

Lemma merged_hit before e after order :
  price e = price order → price order ∉ price <$> before →
  merged (before ++ e :: after) order
  = before ++ fetch_add e (lotSize order) :: after.
Proof.
  intros He Hfresh. induction before as [|b before IH]; simpl.
  - rewrite merged_cons. by rewrite decide_True.
  - rewrite fmap_cons, not_elem_of_cons in Hfresh.
    destruct Hfresh as [Hb Hfresh].
    rewrite merged_cons, decide_False by done. by rewrite IH.
Qed.

(** X16: [insert] takes a negative lot size as it is.  When the symbol has
    a level at the price, whose quantity is an [int], inserting a lot size
    and then its negation at that price gives back the store as it was.
    When the symbol has no level at the price, the same two inserts leave a
    new level of quantity 0 at the end of its Book: an insert never takes a
    level away. *)
Theorem insert_negated_lot (s : Store) (symbol : string) (q p : Z) :
  (∀ orders,
     s !! symbol = Some orders → p ∈ price <$> orders →
     Forall (λ o, Int.in_range (lotSize o)) orders →
     store (insert symbol (mkOrder (- q) p) (store (insert symbol (mkOrder q p) s)))
     = s) ∧
  (p ∉ price <$> book s symbol →
   store (insert symbol (mkOrder (- q) p) (store (insert symbol (mkOrder q p) s)))
     !! symbol
   = Some (book s symbol ++ [mkOrder 0 p])).
Proof.
  rewrite (insert_eq symbol (mkOrder q p) s); cbn [store].
  rewrite insert_on_book. split.
  - intros orders Hs Hin Hrange. unfold book. rewrite Hs; simpl.
    destruct (scan_hit orders (mkOrder q p) Hin)
      as (before & e & after & -> & He & Hfresh & _).
    simpl in He, Hfresh.
    rewrite (merged_hit before e after (mkOrder q p)) by done.
    rewrite (merged_hit before _ after (mkOrder (- q) p)) by done. simpl.
    rewrite fetch_add_back; [by apply insert_id|].
    apply Forall_app in Hrange as [_ Hrange].
    by apply Forall_cons in Hrange as [? _].
  - intros Hfresh. rewrite lookup_insert_eq.
    rewrite (merged_miss _ (mkOrder q p)) by done.
    rewrite (merged_hit (book s symbol) (mkOrder q p) [] (mkOrder (- q) p))
      by done.
    do 3 f_equal. unfold fetch_add; simpl. by rewrite Z.add_opp_diag_r.
Qed.

Lemma insert_negated_lot_witness :
  store (insert "TCS" (mkOrder (- 7) 2)
           (store (insert "TCS" (mkOrder 7 2) {["TCS" := [mkOrder 10 2]]})))
  = {["TCS" := [mkOrder 10 2]]} ∧
  store (insert "TCS" (mkOrder (- 7) 5)
           (store (insert "TCS" (mkOrder 7 5) {["TCS" := [mkOrder 10 2]]})))
    !! "TCS"
  = Some [mkOrder 10 2; mkOrder 0 5].
Proof.
  split.
  - refine (proj1 (insert_negated_lot {["TCS" := [mkOrder 10 2]]} "TCS" 7 2)
              [mkOrder 10 2] _ _ _).
    + reflexivity.
    + apply list_elem_of_here.
    + repeat constructor; vm_compute; discriminate.
  - refine (proj2 (insert_negated_lot {["TCS" := [mkOrder 10 2]]} "TCS" 7 5) _).
    vm_compute. intros Hin. apply list_elem_of_singleton in Hin. discriminate.
Defined.
